(** * NeuraX signaling server: session pairing and relay

    A shallow embedding of [server/server.py], the Flask-SocketIO signaling
    server, and the properties of its session store and relay handlers.

    Every Socket.IO handler of the source is a function of the connection
    identifier of the caller ([request.sid]), the event payload ([data]) and
    the server state; it returns the new state and the list of events it
    sends.  Logging has no effect on either and is left out. *)

From Stdlib Require Import ZArith.
From stdpp Require Import gmap strings list fin_maps.

Local Open Scope string_scope.

(** ** Python values *)

(** The values a JSON payload decodes to.  A float is kept as mantissa and
    binary exponent: the server only ever tests a value for truth and passes
    it on. *)
#[warnings="-register-all"]
Inductive pyval : Type :=
| PNone
| PBool (b : bool)
| PInt (n : Z)
| PFloat (m e : Z)
| PStr (s : string)
| PList (l : list pyval)
| PDict (d : list (string * pyval)).

(** Python's truth-value test, the one behind [not x]. *)
Definition truthy (v : pyval) : bool :=
  match v with
  | PNone => false
  | PBool b => b
  | PInt n => negb (n =? 0)%Z
  | PFloat m _ => negb (m =? 0)%Z
  | PStr s => negb (String.eqb s "")
  | PList l => match l with [] => false | _ :: _ => true end
  | PDict d => match d with [] => false | _ :: _ => true end
  end.

(** A dict literal with string keys, in insertion order. *)
Definition pydict : Type := list (string * pyval).

Fixpoint dict_get (d : pydict) (key : string) : pyval :=
  match d with
  | [] => PNone
  | (k, v) :: rest => if String.eqb k key then v else dict_get rest key
  end.

(** ** Event payloads *)

(** The [data] argument of a handler.  Session identifiers are strings (the
    docstrings' "Unique identifier", "Session identifier"), so the
    [session_id] entry is typed: [None] when the key is missing or null.
    The remaining entries are arbitrary values. *)
Record payload : Type := Payload {
  data_session_id : option string;
  data_items : pydict
}.

(** [data.get(key)] for the keys other than [session_id]. *)
Definition get (data : payload) (key : string) : pyval :=
  dict_get (data_items data) key.

(** [session_id = data.get('session_id')] followed by the test
    [not session_id]: the identifier when it passes, [None] when the handler
    rejects it. *)
Definition checked_session_id (data : payload) : option string :=
  match data_session_id data with
  | Some session_id => if truthy (PStr session_id) then Some session_id else None
  | None => None
  end.

(** ** Server state *)

(** One value of [active_sessions]: a dict with the optional keys
    ['client_id'] and ['compute_id']. *)
Record session : Type := Session {
  client_id : option string;
  compute_id : option string
}.

(** The dict [{}] a fresh session starts from. *)
Definition empty_session : session := Session None None.

(** [active_sessions] is the module-level dict of the source; [rooms] is the
    Socket.IO room membership that [join_room] records. *)
Record state : Type := State {
  active_sessions : gmap string session;
  rooms : gmap string (gset string)
}.

Definition initial : state := State ∅ ∅.

Definition members (st : state) (room : string) : gset string :=
  default ∅ (rooms st !! room).

(** [join_room(room)]: the caller becomes a member of [room]. *)
Definition join_room (sid room : string) (st : state) : state :=
  State (active_sessions st) (<[room := {[sid]} ∪ members st room]> (rooms st)).

(** ** Outbound events *)

(** [Emit to event body] is [emit(event, body)] inside a handler, which
    Flask-SocketIO addresses to the caller; [Broadcast room event body] is
    [socketio.emit(event, body, room=room)]. *)
Inductive action : Type :=
| Emit (to : string) (event : string) (body : pydict)
| Broadcast (room : string) (event : string) (body : pydict).

Definition is_broadcast (a : action) : bool :=
  match a with
  | Broadcast _ _ _ => true
  | Emit _ _ _ => false
  end.

(** The connections an outbound event is delivered to. *)
Definition recipients (st : state) (a : action) : gset string :=
  match a with
  | Emit to _ _ => {[to]}
  | Broadcast room _ _ => members st room
  end.

Definition error (sid message : string) : action :=
  Emit sid "error" [("message", PStr message)].

(** ** Handlers *)

Definition handle_connect (sid : string) (st : state) : state * list action :=
  (st, [Emit sid "connected"
          [("message", PStr "Connected to NeuraX signaling server")]]).

(** The test of the disconnect scan: [sid] is the client or the compute node
    of [session_data]. *)
Definition occupies (sid : string) (session_data : session) : Prop :=
  client_id session_data = Some sid ∨ compute_id session_data = Some sid.

Global Instance occupies_dec sid session_data : Decision (occupies sid session_data).
Proof. unfold occupies. apply _. Defined.

(** Step 1 of [handle_disconnect]: the loop over [active_sessions.items()]. *)
Definition sessions_to_remove (sid : string) (sessions : gmap string session)
  : list string :=
  (filter (λ item, occupies sid item.2) (map_to_list sessions)).*1.

(** Step 2 of [handle_disconnect]: [del active_sessions[session_id]] for each
    collected key, in order. *)
Definition remove_sessions (keys : list string) (sessions : gmap string session)
  : gmap string session :=
  foldl (λ acc session_id, delete session_id acc) sessions keys.

(** [del sessions[session_id]] as Python has it: [KeyError] ([None]) when
    the key is not there.  [remove_sessions_checked] is the second loop with
    that check; it is shown below never to fail on the keys the scan
    collects, which is why [handle_disconnect] can use [remove_sessions]. *)
Definition del (session_id : string) (sessions : gmap string session)
  : option (gmap string session) :=
  match sessions !! session_id with
  | Some _ => Some (delete session_id sessions)
  | None => None
  end.

Fixpoint remove_sessions_checked (keys : list string)
    (sessions : gmap string session) : option (gmap string session) :=
  match keys with
  | [] => Some sessions
  | session_id :: rest => del session_id sessions ≫= remove_sessions_checked rest
  end.

Definition handle_disconnect (sid : string) (st : state) : state * list action :=
  (State (remove_sessions (sessions_to_remove sid (active_sessions st))
            (active_sessions st))
         (rooms st),
   []).

Definition handle_create_session (sid : string) (data : payload) (st : state)
  : state * list action :=
  match checked_session_id data with
  | None => (st, [error sid "session_id required"])
  | Some session_id =>
      let sessions :=
        match active_sessions st !! session_id with
        | None => <[session_id := empty_session]> (active_sessions st)
        | Some _ => active_sessions st
        end in
      let sessions :=
        alter (λ s, Session (Some sid) (compute_id s)) session_id sessions in
      let st := join_room sid session_id (State sessions (rooms st)) in
      (st, [Emit sid "session_created" [("session_id", PStr session_id)]])
  end.

Definition handle_join_as_compute (sid : string) (data : payload) (st : state)
  : state * list action :=
  match checked_session_id data with
  | None => (st, [error sid "session_id required"])
  | Some session_id =>
      match active_sessions st !! session_id with
      | None => (st, [error sid "Session not found"])
      | Some _ =>
          let sessions :=
            alter (λ s, Session (client_id s) (Some sid)) session_id
                  (active_sessions st) in
          let st := join_room sid session_id (State sessions (rooms st)) in
          (st, [Emit sid "joined"
                  [("role", PStr "compute"); ("session_id", PStr session_id)]])
      end
  end.

(** [active_sessions.get(session_id, {})]. *)
Definition session_or_empty (st : state) (session_id : string) : session :=
  default empty_session (active_sessions st !! session_id).

Definition handle_offer (sid : string) (data : payload) (st : state)
  : state * list action :=
  let offer := get data "offer" in
  match checked_session_id data, truthy offer with
  | Some session_id, true =>
      if decide (client_id (session_or_empty st session_id) ≠ Some sid)
      then (st, [error sid "Unauthorized: not client for this session"])
      else (st, [Broadcast session_id "offer"
                   [("session_id", PStr session_id);
                    ("offer", offer);
                    ("from", PStr sid)]])
  | _, _ => (st, [error sid "session_id and offer required"])
  end.

Definition handle_answer (sid : string) (data : payload) (st : state)
  : state * list action :=
  let answer := get data "answer" in
  match checked_session_id data, truthy answer with
  | Some session_id, true =>
      if decide (compute_id (session_or_empty st session_id) ≠ Some sid)
      then (st, [error sid "Unauthorized: not compute for this session"])
      else (st, [Broadcast session_id "answer"
                   [("session_id", PStr session_id);
                    ("answer", answer);
                    ("from", PStr sid)]])
  | _, _ => (st, [error sid "session_id and answer required"])
  end.

Definition handle_ice_candidate (sid : string) (data : payload) (st : state)
  : state * list action :=
  let candidate := get data "candidate" in
  match checked_session_id data, truthy candidate with
  | Some session_id, true =>
      let session_data := session_or_empty st session_id in
      if decide (client_id session_data ≠ Some sid
                 ∧ compute_id session_data ≠ Some sid)
      then (st, [error sid "Unauthorized: not in this session"])
      else (st, [Broadcast session_id "ice_candidate"
                   [("session_id", PStr session_id);
                    ("candidate", candidate);
                    ("from", PStr sid)]])
  | _, _ => (st, [error sid "session_id and candidate required"])
  end.

(** ** The transport and the event loop *)

(** When a connection closes, Socket.IO runs the ['disconnect'] handler and
    then takes the connection out of every room.  The second half is the
    transport's work, not [server.py]'s; it is kept apart from
    [handle_disconnect] for that reason. *)
Definition transport_disconnect (sid : string) (st : state) : state :=
  State (active_sessions st) ((λ room, room ∖ {[sid]}) <$> rooms st).

(** The inbound events, one per [@socketio.on] registration. *)
Inductive event : Type :=
| Connect
| Disconnect
| CreateSession (data : payload)
| JoinAsCompute (data : payload)
| Offer (data : payload)
| Answer (data : payload)
| IceCandidate (data : payload).

(** Dispatch of one event sent by connection [sid]. *)
Definition step (sid : string) (ev : event) (st : state) : state * list action :=
  match ev with
  | Connect => handle_connect sid st
  | Disconnect =>
      let (st', out) := handle_disconnect sid st in
      (transport_disconnect sid st', out)
  | CreateSession data => handle_create_session sid data st
  | JoinAsCompute data => handle_join_as_compute sid data st
  | Offer data => handle_offer sid data st
  | Answer data => handle_answer sid data st
  | IceCandidate data => handle_ice_candidate sid data st
  end.

(** The states the server can be in: the empty start state and whatever a
    sequence of events leads to. *)
Inductive reachable : state → Prop :=
| reachable_initial : reachable initial
| reachable_step sid ev st : reachable st → reachable (step sid ev st).1.

(** A whole trace of [(sender, event)] pairs, oldest first, with everything
    the server sent along the way. *)
Fixpoint run (trace : list (string * event)) (st : state) : state * list action :=
  match trace with
  | [] => (st, [])
  | (sid, ev) :: rest =>
      let (st1, out1) := step sid ev st in
      let (st2, out2) := run rest st1 in
      (st2, (out1 ++ out2)%list)
  end.

(** ** The three relay events as one family *)

Inductive relay_kind : Type := RelayOffer | RelayAnswer | RelayIceCandidate.

(** Name of the event, inbound and outbound. *)
Definition relay_event (k : relay_kind) : string :=
  match k with
  | RelayOffer => "offer"
  | RelayAnswer => "answer"
  | RelayIceCandidate => "ice_candidate"
  end.

(** Name of the payload entry that is relayed. *)
Definition relay_field (k : relay_kind) : string :=
  match k with
  | RelayOffer => "offer"
  | RelayAnswer => "answer"
  | RelayIceCandidate => "candidate"
  end.

Definition handle_relay (k : relay_kind)
  : string → payload → state → state * list action :=
  match k with
  | RelayOffer => handle_offer
  | RelayAnswer => handle_answer
  | RelayIceCandidate => handle_ice_candidate
  end.

(** ** Vocabulary of the specification *)

(** The specification sorts the ['error'] events into three classes; the
    source tells them apart by message text only. *)
Inductive error_class : Type := ValidationError | NotFoundError | UnauthorizedError.

Definition error_class_of (message : string) : option error_class :=
  if decide (message ∈ ["session_id required";
                        "session_id and offer required";
                        "session_id and answer required";
                        "session_id and candidate required"])
  then Some ValidationError
  else if decide (message = "Session not found")
  then Some NotFoundError
  else if decide (message ∈ ["Unauthorized: not client for this session";
                             "Unauthorized: not compute for this session";
                             "Unauthorized: not in this session"])
  then Some UnauthorizedError
  else None.

(** [a] is an error event of class [c] addressed to [sid]. *)
Definition reports (a : action) (sid : string) (c : error_class) : Prop :=
  ∃ message, a = error sid message ∧ error_class_of message = Some c.

(** The connection recorded in the client, respectively compute, role of
    the session stored under [session_id], if any. *)
Definition client_connection (st : state) (session_id : string) : option string :=
  active_sessions st !! session_id ≫= client_id.

Definition compute_connection (st : state) (session_id : string) : option string :=
  active_sessions st !! session_id ≫= compute_id.

(** The authorization table of the specification: who may send which relay
    event for a session. *)
Definition authorized (k : relay_kind) (sender : string) (st : state)
    (session_id : string) : Prop :=
  match k with
  | RelayOffer => client_connection st session_id = Some sender
  | RelayAnswer => compute_connection st session_id = Some sender
  | RelayIceCandidate =>
      client_connection st session_id = Some sender
      ∨ compute_connection st session_id = Some sender
  end.

(** A relay payload passes validation when its session identifier and its
    relayed entry are both there and non-empty, that is, when neither is
    rejected by the handler's [not x] test. *)
Definition well_formed (k : relay_kind) (data : payload) (session_id : string)
  : Prop :=
  data_session_id data = Some session_id
  ∧ session_id ≠ ""
  ∧ truthy (get data (relay_field k)) = true.

Global Instance authorized_dec k sender st session_id :
  Decision (authorized k sender st session_id).
Proof. destruct k; simpl; apply _. Defined.

(** The message each relay handler sends for a payload it rejects, and for
    a sender it does not accept. *)
Definition validation_message (k : relay_kind) : string :=
  match k with
  | RelayOffer => "session_id and offer required"
  | RelayAnswer => "session_id and answer required"
  | RelayIceCandidate => "session_id and candidate required"
  end.

Definition unauthorized_message (k : relay_kind) : string :=
  match k with
  | RelayOffer => "Unauthorized: not client for this session"
  | RelayAnswer => "Unauthorized: not compute for this session"
  | RelayIceCandidate => "Unauthorized: not in this session"
  end.

(** The dict a relay handler broadcasts. *)
Definition relayed (k : relay_kind) (session_id : string) (value : pyval)
    (sender : string) : pydict :=
  [("session_id", PStr session_id); (relay_field k, value); ("from", PStr sender)].

(** The broadcasts among the events sent. *)
Definition broadcasts (out : list action) : list action :=
  filter (λ a, is_broadcast a = true) out.

(** Every stored session has a client. *)
Definition client_populated (st : state) : Prop :=
  ∀ session_id session_data,
    active_sessions st !! session_id = Some session_data →
    is_Some (client_id session_data).

(** The number of entries the store holds under [session_id]. *)
Definition entries_for (session_id : string) (st : state) : nat :=
  length (filter (λ item, item.1 = session_id) (map_to_list (active_sessions st))).

(** Only non-empty strings are keys of the store. *)
Definition session_ids_nonempty (st : state) : Prop :=
  ∀ session_id, is_Some (active_sessions st !! session_id) → session_id ≠ "".

(** Whoever holds a role of a session is a member of the session's room. *)
Definition occupants_joined (st : state) : Prop :=
  ∀ session_id session_data c,
    active_sessions st !! session_id = Some session_data →
    occupies c session_data →
    c ∈ members st session_id.

(** The connections paired under a session: its client and its compute
    node, as far as the roles are taken. *)
Definition paired (session_data : session) : gset string :=
  from_option singleton ∅ (client_id session_data)
  ∪ from_option singleton ∅ (compute_id session_data).

(** ** The scenario of the specification

    Connection ["A"] creates session ["s1"], connection ["B"] joins it as
    compute node, the offer and the answer are exchanged. *)

Definition s1_data : payload := Payload (Some "s1") [].

Definition s1_offer : payload := Payload (Some "s1") [("offer", PStr "SDP-OFFER")].

Definition s1_answer : payload := Payload (Some "s1") [("answer", PStr "SDP-ANSWER")].

Definition s1_candidate : payload :=
  Payload (Some "s1")
    [("candidate",
      PDict [("candidate", PStr "candidate:1 1 UDP 2122252543 10.0.0.2 54321 typ host");
             ("sdpMid", PStr "0");
             ("sdpMLineIndex", PInt 0)])].

Definition pairing : list (string * event) :=
  [("A", CreateSession s1_data); ("B", JoinAsCompute s1_data)].

Definition handshake : list (string * event) :=
  (pairing ++ [("A", Offer s1_offer); ("B", Answer s1_answer)])%list.

Definition paired_state : state := (run pairing initial).1.

(** Two clients in a row for the same session: ["A"] registers, then ["C"]
    registers under the same identifier and takes the client role over. *)
Definition takeover : list (string * event) :=
  [("A", CreateSession s1_data); ("C", CreateSession s1_data)].

Definition takeover_state : state := (run takeover initial).1.

(** The reading of "room" as a pair: the room of every stored session has
    the connections paired under the session as its members, and no others. *)
Definition room_is_pair (st : state) : Prop :=
  ∀ session_id session_data,
    active_sessions st !! session_id = Some session_data →
    members st session_id = paired session_data.

(** The inbound event of a relay kind. *)
Definition relay (k : relay_kind) (data : payload) : event :=
  match k with
  | RelayOffer => Offer data
  | RelayAnswer => Answer data
  | RelayIceCandidate => IceCandidate data
  end.

(** ** The health check *)

(** The dict the route ['/'] returns; [len(active_sessions)] is the number
    of keys of the store. *)
Definition health_check (st : state) : pydict :=
  [("status", PStr "online");
   ("service", PStr "neurax-signaling");
   ("active_sessions", PInt (Z.of_nat (size (active_sessions st))))].

(** ** Connections over a trace *)

(** The connections that are open after a trace, when [conns] were open
    before it: ['connect'] opens the sender's, ['disconnect'] closes it. *)
Fixpoint live (trace : list (string * event)) (conns : gset string)
  : gset string :=
  match trace with
  | [] => conns
  | (sid, Connect) :: rest => live rest ({[sid]} ∪ conns)
  | (sid, Disconnect) :: rest => live rest (conns ∖ {[sid]})
  | _ :: rest => live rest conns
  end.

(** What Socket.IO guarantees of the events it dispatches: apart from
    ['connect'], an event comes from a connection that is open. *)
Fixpoint transport_ok (trace : list (string * event)) (conns : gset string)
  : bool :=
  match trace with
  | [] => true
  | (sid, Connect) :: rest => transport_ok rest ({[sid]} ∪ conns)
  | (sid, Disconnect) :: rest =>
      bool_decide (sid ∈ conns) && transport_ok rest (conns ∖ {[sid]})
  | (sid, _) :: rest => bool_decide (sid ∈ conns) && transport_ok rest conns
  end.



(** The scenario with its connects, up to the compute node's answer. *)
Definition session_trace : list (string * event) :=
  (("A", Connect) :: ("B", Connect) :: handshake)%list.

(** * Properties *)

(** ** Disconnect cleanup *)

Section disconnect.
Implicit Types (sessions : gmap string session) (keys : list string).

Lemma remove_sessions_cons session_id keys sessions :
  remove_sessions (session_id :: keys) sessions
  = remove_sessions keys (delete session_id sessions).
Proof. reflexivity. Qed.

Lemma remove_sessions_lookup keys sessions session_id :
  remove_sessions keys sessions !! session_id
  = if decide (session_id ∈ keys) then None else sessions !! session_id.
Proof.
  revert sessions. induction keys as [|k keys IH]; intros sessions.
  - case_decide as Hin; [by apply elem_of_nil in Hin | done].
  - rewrite remove_sessions_cons, IH.
    destruct (decide (k = session_id)) as [->|Hne].
    + rewrite lookup_delete_eq, (decide_True _ _ (list_elem_of_here _ _)).
      by case_decide.
    + rewrite lookup_delete_ne by done.
      apply decide_ext. rewrite elem_of_cons.
      split; [auto | intros [?|?]; [congruence | done]].
Qed.

Lemma elem_of_sessions_to_remove sid sessions session_id :
  session_id ∈ sessions_to_remove sid sessions
  ↔ ∃ session_data,
      sessions !! session_id = Some session_data ∧ occupies sid session_data.
Proof.
  unfold sessions_to_remove. rewrite list_elem_of_fmap. split.
  - intros [[k v] [-> [Hocc Hin]%list_elem_of_filter]].
    apply elem_of_map_to_list in Hin. eauto.
  - intros (v & Hlook & Hocc). exists (session_id, v). split; [done|].
    apply list_elem_of_filter. split; [done|]. by apply elem_of_map_to_list.
Qed.

(** The keys collected by the scan are distinct and all present, so no
    [del] of the second loop can raise [KeyError]. *)
Lemma sessions_to_remove_NoDup sid sessions :
  NoDup (sessions_to_remove sid sessions).
Proof.
  unfold sessions_to_remove.
  eapply sublist_NoDup; [|apply fmap_sublist, sublist_filter].
  apply NoDup_fst_map_to_list.
Qed.

Lemma sessions_to_remove_present sid sessions session_id :
  session_id ∈ sessions_to_remove sid sessions → is_Some (sessions !! session_id).
Proof. rewrite elem_of_sessions_to_remove. intros (v & -> & _). eauto. Qed.

Lemma remove_sessions_checked_ok keys sessions :
  NoDup keys →
  (∀ session_id, session_id ∈ keys → is_Some (sessions !! session_id)) →
  remove_sessions_checked keys sessions = Some (remove_sessions keys sessions).
Proof.
  revert sessions. induction keys as [|k keys IH]; intros sessions Hdup Hin; [done|].
  apply NoDup_cons in Hdup as [Hk Hdup].
  rewrite remove_sessions_cons.
  change (remove_sessions_checked (k :: keys) sessions)
    with (del k sessions ≫= remove_sessions_checked keys).
  unfold del. destruct (Hin k) as [v ->]; [by left|]. simpl.
  apply IH; [done|].
  intros k' Hk'. rewrite lookup_delete_ne by (by intros ->).
  apply Hin. by right.
Qed.

(** The second loop of [handle_disconnect] never raises [KeyError]. *)
Lemma handle_disconnect_no_KeyError sid sessions :
  remove_sessions_checked (sessions_to_remove sid sessions) sessions
  = Some (remove_sessions (sessions_to_remove sid sessions) sessions).
Proof.
  apply remove_sessions_checked_ok;
    [apply sessions_to_remove_NoDup | apply sessions_to_remove_present].
Qed.

Lemma handle_disconnect_lookup sid st session_id :
  active_sessions (handle_disconnect sid st).1 !! session_id
  = match active_sessions st !! session_id with
    | Some session_data =>
        if decide (occupies sid session_data) then None else Some session_data
    | None => None
    end.
Proof.
  simpl. rewrite remove_sessions_lookup.
  destruct (active_sessions st !! session_id) as [v|] eqn:Hlook.
  - case_decide as Hin.
    + apply elem_of_sessions_to_remove in Hin as (v' & Hv' & Hocc).
      rewrite Hlook in Hv'. injection Hv' as <-. by rewrite decide_True.
    + rewrite decide_False; [done|]. intros Hocc. apply Hin.
      apply elem_of_sessions_to_remove. eauto.
  - by case_decide.
Qed.
End disconnect.

(** ** What each handler does to the state *)

Section handlers.
Implicit Types (sid sender session_id : string) (data : payload) (st : state).

Lemma checked_session_id_Some data session_id :
  checked_session_id data = Some session_id
  ↔ data_session_id data = Some session_id ∧ session_id ≠ "".
Proof.
  unfold checked_session_id.
  destruct (data_session_id data) as [s|]; simpl.
  - destruct (String.eqb_spec s "") as [->|Hne]; simpl.
    + split; [done | by intros [[= <-] ?]].
    + split; [by intros [= <-] | by intros [[= <-] _]].
  - split; [done | by intros [? _]].
Qed.

Lemma checked_session_id_None data :
  checked_session_id data = None
  ↔ data_session_id data = None ∨ data_session_id data = Some "".
Proof.
  unfold checked_session_id.
  destruct (data_session_id data) as [s|]; simpl.
  - destruct (String.eqb_spec s "") as [->|Hne]; simpl.
    + split; [by right | done].
    + split; [done | intros [?|[= ?]]; done].
  - split; [by left | done].
Qed.

Lemma alter_lookup_Some {A} (f : A → A) (m : gmap string A) i x :
  m !! i = Some x → alter f i m = <[i := f x]> m.
Proof.
  intros Hi. apply map_eq. intros j. rewrite lookup_alter, lookup_insert.
  case_decide; subst; by rewrite ?Hi.
Qed.

Lemma create_session_store sid data st session_id :
  checked_session_id data = Some session_id →
  active_sessions (handle_create_session sid data st).1
  = <[session_id := Session (Some sid) (compute_connection st session_id)]>
      (active_sessions st).
Proof.
  intros Hsid. unfold handle_create_session, compute_connection.
  rewrite Hsid. simpl.
  destruct (active_sessions st !! session_id) as [v|] eqn:Hlook; simpl.
  - by rewrite (alter_lookup_Some _ _ _ _ Hlook).
  - by rewrite alter_insert_eq.
Qed.

Lemma create_session_rooms sid data st session_id :
  checked_session_id data = Some session_id →
  rooms (handle_create_session sid data st).1
  = <[session_id := {[sid]} ∪ members st session_id]> (rooms st).
Proof. intros Hsid. unfold handle_create_session. by rewrite Hsid. Qed.

Lemma create_session_rejected sid data st :
  checked_session_id data = None →
  handle_create_session sid data st = (st, [error sid "session_id required"]).
Proof. intros Hsid. unfold handle_create_session. by rewrite Hsid. Qed.

Lemma join_as_compute_rejected sid data st :
  checked_session_id data = None →
  handle_join_as_compute sid data st = (st, [error sid "session_id required"]).
Proof. intros Hsid. unfold handle_join_as_compute. by rewrite Hsid. Qed.

Lemma join_as_compute_not_found sid data st session_id :
  checked_session_id data = Some session_id →
  active_sessions st !! session_id = None →
  handle_join_as_compute sid data st = (st, [error sid "Session not found"]).
Proof.
  intros Hsid Hlook. unfold handle_join_as_compute. by rewrite Hsid, Hlook.
Qed.

Lemma join_as_compute_found sid data st session_id session_data :
  checked_session_id data = Some session_id →
  active_sessions st !! session_id = Some session_data →
  handle_join_as_compute sid data st
  = (State (<[session_id := Session (client_id session_data) (Some sid)]>
              (active_sessions st))
           (<[session_id := {[sid]} ∪ members st session_id]> (rooms st)),
     [Emit sid "joined"
        [("role", PStr "compute"); ("session_id", PStr session_id)]]).
Proof.
  intros Hsid Hlook. unfold handle_join_as_compute. rewrite Hsid, Hlook.
  unfold join_room. simpl. by rewrite (alter_lookup_Some _ _ _ _ Hlook).
Qed.

(** The relay handlers only read the state. *)
Lemma handle_relay_state k sender data st :
  (handle_relay k sender data st).1 = st.
Proof.
  destruct k; simpl;
    [unfold handle_offer | unfold handle_answer | unfold handle_ice_candidate];
    destruct (checked_session_id data); try done;
    destruct (truthy _); try done; by case_decide.
Qed.

(** Reading a role through [active_sessions.get(session_id, {})] is reading
    the stored role: a missing session has none. *)
Lemma client_id_session_or_empty st session_id :
  client_id (session_or_empty st session_id) = client_connection st session_id.
Proof.
  unfold session_or_empty, client_connection.
  by destruct (active_sessions st !! session_id).
Qed.

Lemma compute_id_session_or_empty st session_id :
  compute_id (session_or_empty st session_id) = compute_connection st session_id.
Proof.
  unfold session_or_empty, compute_connection.
  by destruct (active_sessions st !! session_id).
Qed.

Lemma members_join_room sid room st room' :
  members (join_room sid room st) room'
  = if decide (room = room') then {[sid]} ∪ members st room' else members st room'.
Proof.
  unfold members, join_room. simpl. rewrite lookup_insert.
  by case_decide; subst.
Qed.

Lemma members_transport_disconnect sid st room :
  members (transport_disconnect sid st) room = members st room ∖ {[sid]}.
Proof.
  unfold members, transport_disconnect. simpl. rewrite lookup_fmap.
  destruct (rooms st !! room); simpl; [done | by rewrite empty_difference_L].
Qed.
End handlers.

(** ** Invariants of the reachable states *)

Section invariants.
Implicit Types (sid session_id room : string) (ev : event) (st : state).

(** The three relay events go through [handle_relay], which leaves the
    state alone. *)
Lemma step_relay_state sid ev st :
  match ev with
  | Offer _ | Answer _ | IceCandidate _ => (step sid ev st).1 = st
  | _ => True
  end.
Proof.
  destruct ev as [| |data|data|data|data|data]; try done.
  - apply (handle_relay_state RelayOffer).
  - apply (handle_relay_state RelayAnswer).
  - apply (handle_relay_state RelayIceCandidate).
Qed.

Ltac relay_unchanged :=
  match goal with
  | |- context [step ?sid (Offer ?data) ?st] =>
      rewrite (step_relay_state sid (Offer data) st)
  | |- context [step ?sid (Answer ?data) ?st] =>
      rewrite (step_relay_state sid (Answer data) st)
  | |- context [step ?sid (IceCandidate ?data) ?st] =>
      rewrite (step_relay_state sid (IceCandidate data) st)
  end.

Lemma step_disconnect_lookup_Some sid st session_id session_data :
  active_sessions (step sid Disconnect st).1 !! session_id = Some session_data
  ↔ active_sessions st !! session_id = Some session_data
    ∧ ¬ occupies sid session_data.
Proof.
  change (active_sessions (step sid Disconnect st).1)
    with (active_sessions (handle_disconnect sid st).1).
  rewrite handle_disconnect_lookup.
  destruct (active_sessions st !! session_id) as [v|]; [|by split; [|intros []]].
  case_decide as Hocc.
  - split; [done | by intros [[= <-] ?]].
  - split; [by intros [= <-] | by intros [? _]].
Qed.

(** Where a stored record comes from: it was there before the event, or a
    [create_session] wrote the caller into its client role, or a
    [join_as_compute] wrote the caller into the compute role of a record
    that was there. *)
Lemma step_lookup_Some sid ev st session_id session_data :
  active_sessions (step sid ev st).1 !! session_id = Some session_data →
  (active_sessions st !! session_id = Some session_data
   ∧ (ev = Disconnect → ¬ occupies sid session_data))
  ∨ (∃ data, ev = CreateSession data
       ∧ checked_session_id data = Some session_id
       ∧ session_data = Session (Some sid) (compute_connection st session_id))
  ∨ (∃ data old, ev = JoinAsCompute data
       ∧ checked_session_id data = Some session_id
       ∧ active_sessions st !! session_id = Some old
       ∧ session_data = Session (client_id old) (Some sid)).
Proof.
  destruct ev as [| |data|data|data|data|data].
  - left. by split.
  - rewrite step_disconnect_lookup_Some. intros [? ?]. left. by split.
  - simpl. destruct (checked_session_id data) as [s'|] eqn:Hsid.
    + rewrite (create_session_store _ _ _ _ Hsid), lookup_insert.
      case_decide as Heq; [subst s'|by left].
      intros [= <-]. right; left. by exists data.
    + rewrite create_session_rejected by done. by left.
  - simpl. destruct (checked_session_id data) as [s'|] eqn:Hsid.
    + destruct (active_sessions st !! s') as [v'|] eqn:Hlook.
      * rewrite (join_as_compute_found _ _ _ _ _ Hsid Hlook). simpl.
        rewrite lookup_insert. case_decide as Heq; [subst s'|by left].
        intros [= <-]. right; right. by exists data, v'.
      * rewrite (join_as_compute_not_found _ _ _ _ Hsid Hlook). by left.
    + rewrite join_as_compute_rejected by done. by left.
  - relay_unchanged. by left.
  - relay_unchanged. by left.
  - relay_unchanged. by left.
Qed.

(** What an event does to the membership of a room. *)
Lemma step_members sid ev st room :
  members (step sid ev st).1 room
  = match ev with
    | Disconnect => members st room ∖ {[sid]}
    | CreateSession data =>
        if decide (checked_session_id data = Some room)
        then {[sid]} ∪ members st room else members st room
    | JoinAsCompute data =>
        if decide (checked_session_id data = Some room
                   ∧ is_Some (active_sessions st !! room))
        then {[sid]} ∪ members st room else members st room
    | _ => members st room
    end.
Proof.
  destruct ev as [| |data|data|data|data|data].
  - done.
  - simpl. by rewrite members_transport_disconnect.
  - simpl. destruct (checked_session_id data) as [s'|] eqn:Hsid.
    + unfold members at 1. rewrite (create_session_rooms _ _ _ _ Hsid).
      rewrite lookup_insert.
      destruct (decide (s' = room)) as [->|Hne];
        [by rewrite decide_True | by rewrite decide_False by congruence].
    + rewrite create_session_rejected by done. by rewrite decide_False.
  - simpl. destruct (checked_session_id data) as [s'|] eqn:Hsid.
    + destruct (active_sessions st !! s') as [v'|] eqn:Hlook.
      * rewrite (join_as_compute_found _ _ _ _ _ Hsid Hlook).
        unfold members at 1. simpl. rewrite lookup_insert.
        destruct (decide (s' = room)) as [->|Hne].
        -- rewrite decide_True; [done|]. rewrite Hlook. eauto.
        -- rewrite decide_False; [done|]. intros [[= ?] _]. done.
      * rewrite (join_as_compute_not_found _ _ _ _ Hsid Hlook).
        rewrite decide_False; [done|]. intros [[= <-] [? ?]]. congruence.
    + rewrite join_as_compute_rejected by done.
      rewrite decide_False; [done|]. by intros [? _].
  - by relay_unchanged.
  - by relay_unchanged.
  - by relay_unchanged.
Qed.

Lemma step_client_populated sid ev st :
  client_populated st → client_populated (step sid ev st).1.
Proof.
  intros Hinv s v Hv.
  apply step_lookup_Some in Hv
    as [[Hv _]|[(data & _ & _ & ->)|(data & old & _ & _ & Hold & ->)]].
  - by eapply Hinv.
  - by eexists.
  - simpl. by eapply Hinv.
Qed.

Lemma initial_client_populated : client_populated initial.
Proof. intros s v. simpl. by rewrite lookup_empty. Qed.

Lemma reachable_client_populated st : reachable st → client_populated st.
Proof.
  induction 1; [apply initial_client_populated | by apply step_client_populated].
Qed.

Lemma step_session_ids_nonempty sid ev st :
  session_ids_nonempty st → session_ids_nonempty (step sid ev st).1.
Proof.
  intros Hinv s [v Hv].
  apply step_lookup_Some in Hv
    as [[Hv _]|[(data & _ & Hsid & _)|(data & old & _ & Hsid & _)]].
  - apply Hinv. eauto.
  - by apply checked_session_id_Some in Hsid as [_ ?].
  - by apply checked_session_id_Some in Hsid as [_ ?].
Qed.

Lemma reachable_session_ids_nonempty st :
  reachable st → session_ids_nonempty st.
Proof.
  induction 1; [|by apply step_session_ids_nonempty].
  intros s [v Hv]. simpl in Hv. by rewrite lookup_empty in Hv.
Qed.

Lemma step_occupants_joined sid ev st :
  occupants_joined st → occupants_joined (step sid ev st).1.
Proof.
  intros Hinv s v c Hv Hocc. rewrite step_members.
  apply step_lookup_Some in Hv
    as [[Hv Hdis]|[(data & -> & Hsid & ->)|(data & old & -> & Hsid & Hold & ->)]].
  - assert (c ∈ members st s) as Hc by (by eapply Hinv).
    destruct ev; try done.
    + apply elem_of_difference. split; [done|].
      intros ->%elem_of_singleton. by apply Hdis.
    + case_decide; [apply elem_of_union; by right | done].
    + case_decide; [apply elem_of_union; by right | done].
  - rewrite decide_True by done. apply elem_of_union.
    destruct Hocc as [[= <-]|Hc]; simpl in *; [left; by apply elem_of_singleton|].
    right. unfold compute_connection in Hc.
    destruct (active_sessions st !! s) as [v0|] eqn:Hv0; [|done].
    eapply Hinv; [done|]. by right.
  - rewrite decide_True by (rewrite Hold; eauto). apply elem_of_union.
    destruct Hocc as [Hc|[= <-]]; simpl in *; [|left; by apply elem_of_singleton].
    right. eapply Hinv; [done|]. by left.
Qed.

Lemma reachable_occupants_joined st : reachable st → occupants_joined st.
Proof.
  induction 1; [|by apply step_occupants_joined].
  intros s v c Hv. simpl in Hv. by rewrite lookup_empty in Hv.
Qed.
End invariants.

(** ** The relay protocol *)

Section relay.
Implicit Types (k : relay_kind) (sender session_id : string).
Implicit Types (data : payload) (st : state).

Lemma well_formed_checked k data session_id :
  well_formed k data session_id → checked_session_id data = Some session_id.
Proof. intros (? & ? & _). by apply checked_session_id_Some. Qed.

Lemma well_formed_unique k data s1 s2 :
  well_formed k data s1 → well_formed k data s2 → s1 = s2.
Proof. intros (H1 & _) (H2 & _). congruence. Qed.

(** A relay handler on a payload that passes validation: one broadcast to
    the session's room for an accepted sender, one error otherwise. *)
Lemma handle_relay_well_formed k sender data st session_id :
  well_formed k data session_id →
  handle_relay k sender data st
  = (st,
     if decide (authorized k sender st session_id)
     then [Broadcast session_id (relay_event k)
             (relayed k session_id (get data (relay_field k)) sender)]
     else [error sender (unauthorized_message k)]).
Proof.
  intros Hwf. pose proof (well_formed_checked _ _ _ Hwf) as Hsid.
  destruct Hwf as (_ & _ & Hval).
  destruct k; simpl in *;
    [unfold handle_offer | unfold handle_answer | unfold handle_ice_candidate];
    rewrite Hsid, Hval, ?client_id_session_or_empty, ?compute_id_session_or_empty.
  - destruct (decide (client_connection st session_id = Some sender)) as [Hc|Hc].
    + by rewrite decide_False by (by intros []).
    + by rewrite decide_True.
  - destruct (decide (compute_connection st session_id = Some sender)) as [Hc|Hc].
    + by rewrite decide_False by (by intros []).
    + by rewrite decide_True.
  - destruct (decide (client_connection st session_id = Some sender
                      ∨ compute_connection st session_id = Some sender))
      as [Hc|Hc].
    + rewrite decide_False; [done|]. intros [? ?]. by destruct Hc.
    + rewrite decide_True; [done|]. split; intros ?; apply Hc; auto.
Qed.

(** A relay handler on a payload that fails validation. *)
Lemma handle_relay_malformed k sender data st :
  (∀ session_id, ¬ well_formed k data session_id) →
  handle_relay k sender data st = (st, [error sender (validation_message k)]).
Proof.
  intros Hbad.
  assert (checked_session_id data = None
          ∨ truthy (get data (relay_field k)) = false) as Hcases.
  { destruct (checked_session_id data) as [s|] eqn:Hsid; [|by left].
    destruct (truthy (get data (relay_field k))) eqn:Hval; [|by right].
    apply checked_session_id_Some in Hsid as [? ?].
    by destruct (Hbad s). }
  destruct k; simpl in *;
    [unfold handle_offer | unfold handle_answer | unfold handle_ice_candidate];
    destruct Hcases as [-> | ->]; try done;
    by destruct (checked_session_id data).
Qed.

Lemma error_class_unauthorized k :
  error_class_of (unauthorized_message k) = Some UnauthorizedError.
Proof. by destruct k. Qed.

Lemma error_class_validation k :
  error_class_of (validation_message k) = Some ValidationError.
Proof. by destruct k. Qed.
End relay.

(** ** Reachability of the scenario states *)

Lemma reachable_run trace st : reachable st → reachable (run trace st).1.
Proof.
  revert st. induction trace as [|[sid ev] rest IH]; intros st Hst; [done|].
  simpl. pose proof (reachable_step sid ev st Hst) as Hstep.
  destruct (step sid ev st) as [st1 out1]. specialize (IH st1 Hstep).
  by destruct (run rest st1).
Qed.

Lemma reachable_paired_state : reachable paired_state.
Proof. apply reachable_run, reachable_initial. Qed.

Lemma paired_state_sessions :
  active_sessions paired_state = {["s1" := Session (Some "A") (Some "B")]}.
Proof. by vm_compute. Qed.

Lemma paired_state_members : members paired_state "s1" = {["A"; "B"]}.
Proof. by vm_compute. Qed.

(** The end-to-end scenario of the specification: the confirmations go to
    the callers, the offer and the answer go to the room of both peers, and
    the client's disconnect empties the store. *)
Lemma handshake_events :
  (run handshake initial).2
  = [Emit "A" "session_created" [("session_id", PStr "s1")];
     Emit "B" "joined" [("role", PStr "compute"); ("session_id", PStr "s1")];
     Broadcast "s1" "offer"
       [("session_id", PStr "s1"); ("offer", PStr "SDP-OFFER"); ("from", PStr "A")];
     Broadcast "s1" "answer"
       [("session_id", PStr "s1"); ("answer", PStr "SDP-ANSWER"); ("from", PStr "B")]].
Proof. reflexivity. Qed.

Lemma handshake_then_disconnect :
  active_sessions (step "A" Disconnect (run handshake initial).1).1 = ∅.
Proof. by vm_compute. Qed.

(** ** The claims about the relay *)

(** C1: a relay event whose required fields pass validation is broadcast
    exactly when the sender's connection identifier equals the stored role:
    the client for an offer, the compute node for an answer, either of the
    two for an ICE candidate.  The broadcast goes to the session's room; any
    other sender gets a single [UnauthorizedError] event and nothing is
    broadcast. *)
Theorem relay_authorization k sender data st session_id :
  well_formed k data session_id →
  (broadcasts (handle_relay k sender data st).2 ≠ []
   ↔ authorized k sender st session_id)
  ∧ (authorized k sender st session_id →
     ∃ body, (handle_relay k sender data st).2
             = [Broadcast session_id (relay_event k) body])
  ∧ (¬ authorized k sender st session_id →
     broadcasts (handle_relay k sender data st).2 = []
     ∧ ∃ a, (handle_relay k sender data st).2 = [a]
            ∧ reports a sender UnauthorizedError).
Proof.
  intros Hwf. rewrite (handle_relay_well_formed _ _ _ _ _ Hwf). simpl.
  destruct (decide (authorized k sender st session_id)) as [Hauth|Hauth].
  - split; [by split|]. split; [by eexists | done].
  - split; [by split|]. split; [done|]. intros _. split; [done|].
    eexists. split; [done|]. eexists. split; [done|].
    apply error_class_unauthorized.
Qed.

Lemma relay_authorization_witness :
  well_formed RelayOffer s1_offer "s1"
  ∧ (broadcasts (handle_relay RelayOffer "B" s1_offer paired_state).2 ≠ []
     ↔ authorized RelayOffer "B" paired_state "s1").
Proof.
  assert (well_formed RelayOffer s1_offer "s1") as Hwf by (by repeat split).
  split; [exact Hwf|].
  exact (proj1 (relay_authorization RelayOffer "B" s1_offer paired_state "s1" Hwf)).
Defined.

(** C2: a relay event that fails validation or authorization leaves the
    whole state as it was and sends exactly one event: an error, addressed
    to the sender and to nobody else.  Nothing is broadcast. *)
Theorem relay_failure k sender data st :
  ¬ (∃ session_id,
       well_formed k data session_id ∧ authorized k sender st session_id) →
  (handle_relay k sender data st).1 = st
  ∧ ∃ message,
      (handle_relay k sender data st).2 = [error sender message]
      ∧ (error_class_of message = Some ValidationError
         ∨ error_class_of message = Some UnauthorizedError)
      ∧ recipients st (error sender message) = {[sender]}
      ∧ broadcasts (handle_relay k sender data st).2 = [].
Proof.
  intros Hfail. split; [apply handle_relay_state|].
  destruct (data_session_id data) as [s|] eqn:Hs.
  - destruct (decide (well_formed k data s)) as [Hwf|Hwf].
    + rewrite (handle_relay_well_formed _ _ _ _ _ Hwf). simpl.
      rewrite decide_False by (intros ?; apply Hfail; eauto).
      exists (unauthorized_message k).
      split; [done|]. split; [right; apply error_class_unauthorized | done].
    + rewrite handle_relay_malformed.
      * exists (validation_message k).
        split; [done|]. split; [left; apply error_class_validation | done].
      * intros s' Hwf'. apply Hwf.
        destruct Hwf' as (Hs' & ?). rewrite Hs in Hs'. by injection Hs' as <-.
  - rewrite handle_relay_malformed.
    + exists (validation_message k).
      split; [done|]. split; [left; apply error_class_validation | done].
    + intros s' (Hs' & _). congruence.
Qed.

Lemma relay_failure_witness :
  (handle_relay RelayAnswer "A" s1_answer paired_state).1 = paired_state
  ∧ ∃ message,
      (handle_relay RelayAnswer "A" s1_answer paired_state).2 = [error "A" message]
      ∧ (error_class_of message = Some ValidationError
         ∨ error_class_of message = Some UnauthorizedError)
      ∧ recipients paired_state (error "A" message) = {["A"]}
      ∧ broadcasts (handle_relay RelayAnswer "A" s1_answer paired_state).2 = [].
Proof.
  apply (relay_failure RelayAnswer "A" s1_answer paired_state).
  intros (s & (Hs & _) & Hauth). injection Hs as <-.
  vm_compute in Hauth. discriminate Hauth.
Defined.

(** C3: a relay event that passes validation but names a session the store
    does not hold is answered with an [UnauthorizedError] event, the very
    event a sender with the wrong role gets for an existing session; it is
    not a [NotFoundError], and nothing is broadcast. *)
Theorem relay_unknown_session k sender data st session_id :
  well_formed k data session_id →
  active_sessions st !! session_id = None →
  ∃ a,
    (handle_relay k sender data st).2 = [a]
    ∧ reports a sender UnauthorizedError
    ∧ ¬ reports a sender NotFoundError
    ∧ broadcasts [a] = []
    ∧ ∀ st', is_Some (active_sessions st' !! session_id) →
             ¬ authorized k sender st' session_id →
             (handle_relay k sender data st').2 = [a].
Proof.
  intros Hwf Hnone. exists (error sender (unauthorized_message k)).
  assert (¬ authorized k sender st session_id) as Hauth.
  { unfold authorized, client_connection, compute_connection.
    rewrite Hnone. destruct k; simpl; [done | done | by intros [?|?]]. }
  split.
  { rewrite (handle_relay_well_formed _ _ _ _ _ Hwf). simpl.
    by rewrite decide_False. }
  split.
  { eexists. split; [done | apply error_class_unauthorized]. }
  split.
  { intros (message & [= <-] & Hclass).
    by rewrite error_class_unauthorized in Hclass. }
  split; [done|].
  intros st' _ Hauth'. rewrite (handle_relay_well_formed _ _ _ _ _ Hwf). simpl.
  by rewrite decide_False.
Qed.

Lemma relay_unknown_session_witness :
  ∃ a,
    (handle_relay RelayIceCandidate "A" s1_candidate initial).2 = [a]
    ∧ reports a "A" UnauthorizedError
    ∧ ¬ reports a "A" NotFoundError
    ∧ broadcasts [a] = []
    ∧ ∀ st', is_Some (active_sessions st' !! "s1") →
             ¬ authorized RelayIceCandidate "A" st' "s1" →
             (handle_relay RelayIceCandidate "A" s1_candidate st').2 = [a].
Proof.
  apply (relay_unknown_session RelayIceCandidate "A" s1_candidate initial "s1").
  - by repeat split.
  - reflexivity.
Defined.

(** C8: an accepted relay event is broadcast to the session's room as the
    dict [{session_id, <field>, from}], in which the [offer], [answer] or
    [candidate] entry is the value the sender submitted, as it came in. *)
Theorem relay_payload_transparent k sender data st session_id :
  well_formed k data session_id →
  authorized k sender st session_id →
  (handle_relay k sender data st).2
  = [Broadcast session_id (relay_event k)
       [("session_id", PStr session_id);
        (relay_field k, get data (relay_field k));
        ("from", PStr sender)]]
  ∧ dict_get (relayed k session_id (get data (relay_field k)) sender)
             (relay_field k)
    = get data (relay_field k).
Proof.
  intros Hwf Hauth. rewrite (handle_relay_well_formed _ _ _ _ _ Hwf). simpl.
  rewrite decide_True by done. split; [done|]. by destruct k.
Qed.

Lemma relay_payload_transparent_witness :
  (handle_relay RelayIceCandidate "B" s1_candidate paired_state).2
  = [Broadcast "s1" "ice_candidate"
       [("session_id", PStr "s1");
        ("candidate", get s1_candidate "candidate");
        ("from", PStr "B")]]
  ∧ dict_get (relayed RelayIceCandidate "s1" (get s1_candidate "candidate") "B")
             "candidate"
    = get s1_candidate "candidate".
Proof.
  apply (relay_payload_transparent RelayIceCandidate "B" s1_candidate
           paired_state "s1").
  - by repeat split.
  - right. reflexivity.
Defined.

(** ** Counting the entries of the store *)

Lemma filter_none {A} (P : A → Prop) `{!∀ x, Decision (P x)} (l : list A) :
  (∀ x, x ∈ l → ¬ P x) → filter P l = [].
Proof.
  induction l as [|x l IH]; intros Hnot; [done|].
  rewrite filter_cons, decide_False by (apply Hnot; left).
  apply IH. intros y Hy. apply Hnot. by right.
Qed.

(** A dict holds a key once or not at all. *)
Lemma entries_for_lookup session_id st :
  entries_for session_id st
  = match active_sessions st !! session_id with Some _ => 1 | None => 0 end.
Proof.
  unfold entries_for.
  destruct (active_sessions st !! session_id) as [v|] eqn:Hlook.
  - rewrite <- (map_to_list_delete _ _ _ Hlook).
    rewrite filter_cons_True by done. simpl. f_equal.
    rewrite filter_none; [done|].
    intros [k w] Hin%elem_of_map_to_list Hk. simpl in Hk. subst k.
    by rewrite lookup_delete_eq in Hin.
  - rewrite filter_none; [done|].
    intros [k w] Hin%elem_of_map_to_list Hk. simpl in Hk. congruence.
Qed.

Lemma elem_of_paired c session_data :
  c ∈ paired session_data ↔ occupies c session_data.
Proof.
  unfold paired, occupies. rewrite elem_of_union.
  destruct session_data as [[a|] [b|]]; simpl;
    rewrite ?elem_of_singleton, ?elem_of_empty;
    split; intros [H|H]; try done; try (injection H as ->); auto; subst; auto.
Qed.

(** ** The claims about registration and cleanup *)

(** C4: a disconnect deletes every session in which the connection is the
    client or the compute node, whole, and leaves every other session as it
    was.  Once the client of a session has disconnected, a [join_as_compute]
    for that session gets a [NotFoundError] event. *)
Theorem disconnect_cleanup sid st :
  (∀ session_id,
     active_sessions (handle_disconnect sid st).1 !! session_id
     = match active_sessions st !! session_id with
       | Some session_data =>
           if decide (client_id session_data = Some sid
                      ∨ compute_id session_data = Some sid)
           then None else Some session_data
       | None => None
       end)
  ∧ (reachable st →
     ∀ session_id caller data,
       client_connection st session_id = Some sid →
       data_session_id data = Some session_id →
       handle_join_as_compute caller data (step sid Disconnect st).1
       = ((step sid Disconnect st).1, [error caller "Session not found"])
       ∧ reports (error caller "Session not found") caller NotFoundError).
Proof.
  split; [intros s; apply handle_disconnect_lookup|].
  intros Hreach s caller data Hclient Hdata.
  unfold client_connection in Hclient.
  destruct (active_sessions st !! s) as [v|] eqn:Hlook; [|done].
  simpl in Hclient.
  assert (s ≠ "") as Hne
    by (apply (reachable_session_ids_nonempty _ Hreach); rewrite Hlook; eauto).
  split; [|by eexists].
  apply join_as_compute_not_found with s.
  - by apply checked_session_id_Some.
  - destruct (active_sessions (step sid Disconnect st).1 !! s) as [v'|] eqn:Hv';
      [|done].
    apply step_disconnect_lookup_Some in Hv' as [Hv' Hocc].
    rewrite Hlook in Hv'. injection Hv' as <-. destruct Hocc. by left.
Qed.

Lemma disconnect_cleanup_witness :
  handle_join_as_compute "B" s1_data (step "A" Disconnect paired_state).1
  = ((step "A" Disconnect paired_state).1, [error "B" "Session not found"])
  ∧ reports (error "B" "Session not found") "B" NotFoundError.
Proof.
  apply (proj2 (disconnect_cleanup "A" paired_state)
           reachable_paired_state "s1" "B" s1_data); reflexivity.
Defined.

(** C5: [create_session] without a session identifier, or with an empty one,
    sends a [ValidationError] event to the caller and changes nothing.
    With an identifier it creates the session if there is none, makes the
    caller its client whoever was before, keeps the compute role, puts the
    caller into the room named after the session and sends
    [session_created] with the identifier to the caller alone. *)
Theorem create_session_effect sid data st :
  (data_session_id data = None ∨ data_session_id data = Some "" →
   handle_create_session sid data st = (st, [error sid "session_id required"])
   ∧ reports (error sid "session_id required") sid ValidationError)
  ∧ (∀ session_id,
       data_session_id data = Some session_id → session_id ≠ "" →
       active_sessions (handle_create_session sid data st).1
       = <[session_id := Session (Some sid) (compute_connection st session_id)]>
           (active_sessions st)
       ∧ client_connection (handle_create_session sid data st).1 session_id
         = Some sid
       ∧ (∀ room,
            members (handle_create_session sid data st).1 room
            = if decide (session_id = room)
              then {[sid]} ∪ members st room else members st room)
       ∧ (handle_create_session sid data st).2
         = [Emit sid "session_created" [("session_id", PStr session_id)]]
       ∧ recipients (handle_create_session sid data st).1
           (Emit sid "session_created" [("session_id", PStr session_id)])
         = {[sid]}).
Proof.
  split.
  - intros Hmissing%checked_session_id_None.
    split; [by apply create_session_rejected | by eexists].
  - intros s Hs Hne.
    assert (checked_session_id data = Some s) as Hsid
      by (by apply checked_session_id_Some).
    split; [by apply create_session_store|].
    split.
    { unfold client_connection.
      by rewrite (create_session_store _ _ _ _ Hsid), lookup_insert_eq. }
    split.
    { intros room. change (handle_create_session sid data st)
        with (step sid (CreateSession data) st).
      rewrite step_members, Hsid.
      destruct (decide (s = room)) as [->|Hroom];
        [by rewrite decide_True | by rewrite decide_False by congruence]. }
    unfold handle_create_session. by rewrite Hsid.
Qed.

Lemma create_session_effect_witness :
  active_sessions (handle_create_session "C" s1_data paired_state).1
  = <["s1" := Session (Some "C") (compute_connection paired_state "s1")]>
      (active_sessions paired_state)
  ∧ handle_create_session "C" (Payload (Some "") []) paired_state
    = (paired_state, [error "C" "session_id required"]).
Proof.
  split.
  - apply (proj2 (create_session_effect "C" s1_data paired_state) "s1");
      [reflexivity | done].
  - apply (proj1 (create_session_effect "C" (Payload (Some "") []) paired_state)).
    right. reflexivity.
Defined.

(** C6: [join_as_compute] for a session the store does not hold sends a
    [NotFoundError] event to the caller and leaves the state as it was: no
    session appears and no role changes.  For a session that is there, the
    caller becomes its compute node, joins the room and alone gets the
    [joined] confirmation. *)
Theorem join_as_compute_effect sid data st session_id :
  data_session_id data = Some session_id → session_id ≠ "" →
  (active_sessions st !! session_id = None →
   handle_join_as_compute sid data st = (st, [error sid "Session not found"])
   ∧ reports (error sid "Session not found") sid NotFoundError)
  ∧ (∀ session_data,
       active_sessions st !! session_id = Some session_data →
       active_sessions (handle_join_as_compute sid data st).1
       = <[session_id := Session (client_id session_data) (Some sid)]>
           (active_sessions st)
       ∧ compute_connection (handle_join_as_compute sid data st).1 session_id
         = Some sid
       ∧ (∀ room,
            members (handle_join_as_compute sid data st).1 room
            = if decide (session_id = room)
              then {[sid]} ∪ members st room else members st room)
       ∧ (handle_join_as_compute sid data st).2
         = [Emit sid "joined"
              [("role", PStr "compute"); ("session_id", PStr session_id)]]
       ∧ recipients (handle_join_as_compute sid data st).1
           (Emit sid "joined"
              [("role", PStr "compute"); ("session_id", PStr session_id)])
         = {[sid]}).
Proof.
  intros Hs Hne.
  assert (checked_session_id data = Some session_id) as Hsid
    by (by apply checked_session_id_Some).
  split.
  - intros Hnone. split; [by eapply join_as_compute_not_found | by eexists].
  - intros v Hlook. rewrite (join_as_compute_found _ _ _ _ _ Hsid Hlook). simpl.
    split; [done|]. split.
    { unfold compute_connection. simpl. by rewrite lookup_insert_eq. }
    split; [|done].
    intros room. unfold members at 1. simpl. rewrite lookup_insert.
    by destruct (decide (session_id = room)) as [->|Hroom].
Qed.

Lemma join_as_compute_effect_witness :
  handle_join_as_compute "B" s1_data initial
  = (initial, [error "B" "Session not found"])
  ∧ compute_connection
      (handle_join_as_compute "D" s1_data paired_state).1 "s1" = Some "D".
Proof.
  pose proof (join_as_compute_effect "B" s1_data initial "s1") as Habsent.
  pose proof (join_as_compute_effect "D" s1_data paired_state "s1") as Hthere.
  split.
  - apply Habsent; [reflexivity | done | reflexivity].
  - eapply Hthere; [reflexivity | done | reflexivity].
Defined.

(** C7: two [create_session] calls with the same identifier, by the same
    caller or by two, leave one entry for the identifier, and its client is
    the later caller and nobody else: the last writer wins and a role has
    one occupant. *)
Theorem create_session_twice first second data st session_id :
  data_session_id data = Some session_id → session_id ≠ "" →
  let st1 := (handle_create_session first data st).1 in
  let st2 := (handle_create_session second data st1).1 in
  entries_for session_id st2 = 1
  ∧ size (active_sessions st2) = size (active_sessions st1)
  ∧ (∀ c, client_connection st2 session_id = Some c ↔ c = second)
  ∧ compute_connection st2 session_id = compute_connection st session_id
  ∧ ∀ other, other ≠ session_id →
             active_sessions st2 !! other = active_sessions st !! other.
Proof.
  intros Hs Hne st1 st2.
  assert (checked_session_id data = Some session_id) as Hsid
    by (by apply checked_session_id_Some).
  assert (active_sessions st1
          = <[session_id := Session (Some first) (compute_connection st session_id)]>
              (active_sessions st)) as Hst1
    by (by apply create_session_store).
  assert (compute_connection st1 session_id = compute_connection st session_id)
    as Hcompute
    by (unfold compute_connection at 1; by rewrite Hst1, lookup_insert_eq).
  assert (active_sessions st2
          = <[session_id := Session (Some second) (compute_connection st session_id)]>
              (active_sessions st1)) as Hst2
    by (subst st2; by rewrite (create_session_store _ _ _ _ Hsid), Hcompute).
  split; [by rewrite entries_for_lookup, Hst2, lookup_insert_eq|].
  split.
  { rewrite Hst2. apply map_size_insert_Some.
    rewrite Hst1, lookup_insert_eq. eauto. }
  split.
  { intros c. unfold client_connection. rewrite Hst2, lookup_insert_eq. simpl.
    split; [by intros [= <-] | by intros ->]. }
  split.
  { unfold compute_connection at 1. by rewrite Hst2, lookup_insert_eq. }
  intros other Hother. by rewrite Hst2, Hst1, !lookup_insert_ne.
Qed.

Lemma create_session_twice_witness :
  entries_for "s1" takeover_state = 1
  ∧ ∀ c, client_connection takeover_state "s1" = Some c ↔ c = "C".
Proof.
  pose proof (create_session_twice "A" "C" s1_data initial "s1") as Htwice.
  split.
  - apply Htwice; [reflexivity | done].
  - apply Htwice; [reflexivity | done].
Defined.

(** ** The claims about rooms and the store invariant *)

Lemma reachable_takeover_state : reachable takeover_state.
Proof. apply reachable_run, reachable_initial. Qed.

(** C9, as claimed, fails: after ["C"] has taken the client role of ["s1"]
    over from ["A"], the session pairs ["C"] with nobody, yet the room
    ["s1"] has the members ["A"] and ["C"], and the offer ["C"] sends next
    is delivered to ["A"] as well. *)
Lemma room_is_pair_counterexample :
  reachable takeover_state
  ∧ active_sessions takeover_state !! "s1" = Some (Session (Some "C") None)
  ∧ members takeover_state "s1" = {["A"; "C"]}
  ∧ ¬ room_is_pair takeover_state
  ∧ ∃ a, (handle_offer "C" s1_offer takeover_state).2 = [a]
         ∧ is_broadcast a = true
         ∧ "A" ∈ recipients takeover_state a.
Proof.
  split; [apply reachable_takeover_state|].
  split; [reflexivity|].
  assert (members takeover_state "s1" = {["A"; "C"]}) as Hmembers
    by (by vm_compute).
  split; [exact Hmembers|].
  split.
  - intros Hpair.
    specialize (Hpair "s1" (Session (Some "C") None) eq_refl).
    assert ("A" ∈ paired (Session (Some "C") None)) as HA.
    { rewrite <- Hpair, Hmembers. apply elem_of_union. left.
      by apply elem_of_singleton. }
    apply elem_of_paired in HA as [[= ?]|[= ?]].
  - eexists. split; [reflexivity|]. split; [reflexivity|].
    simpl. rewrite Hmembers. apply elem_of_union. left.
    by apply elem_of_singleton.
Qed.

(** C9, amended: in every reachable state the connections paired under a
    stored session are members of the session's room.  The room can hold
    more than the pair: an event takes nobody out of a room but the
    connection that disconnects, so a connection displaced from a role
    stays a member of the room. *)
Theorem room_contains_pair st :
  reachable st →
  (∀ session_id session_data,
     active_sessions st !! session_id = Some session_data →
     paired session_data ⊆ members st session_id)
  ∧ (∀ sid ev room c,
       c ∈ members st room → ev ≠ Disconnect ∨ c ≠ sid →
       c ∈ members (step sid ev st).1 room).
Proof.
  intros Hreach. split.
  - intros s v Hv c Hc%elem_of_paired.
    by eapply (reachable_occupants_joined _ Hreach).
  - intros sid ev room c Hc Hstay. rewrite step_members.
    destruct ev; try done.
    + apply elem_of_difference. split; [done|].
      intros ->%elem_of_singleton. by destruct Hstay.
    + case_decide; [apply elem_of_union; by right | done].
    + case_decide; [apply elem_of_union; by right | done].
Qed.

Lemma room_contains_pair_witness :
  paired (Session (Some "A") (Some "B")) ⊆ members paired_state "s1"
  ∧ "A" ∈ members (step "C" (CreateSession s1_data) paired_state).1 "s1".
Proof.
  pose proof (room_contains_pair paired_state reachable_paired_state)
    as [Hpair Hstay].
  split.
  - apply Hpair. reflexivity.
  - apply Hstay; [|by left].
    apply (Hpair "s1" (Session (Some "A") (Some "B")) eq_refl).
    apply elem_of_paired. by left.
Defined.

(** C10: every stored session has its client role taken.  This holds at
    the start, every event keeps it, and so it holds in every reachable
    state: no session has a compute node only, or no role at all. *)
Theorem client_role_invariant :
  client_populated initial
  ∧ (∀ sid ev st, client_populated st → client_populated (step sid ev st).1)
  ∧ (∀ st session_id session_data,
       reachable st →
       active_sessions st !! session_id = Some session_data →
       client_id session_data ≠ None
       ∧ session_data ≠ empty_session
       ∧ ∀ c, session_data ≠ Session None (Some c)).
Proof.
  split; [apply initial_client_populated|].
  split; [apply step_client_populated|].
  intros st s v Hreach Hv.
  destruct (reachable_client_populated _ Hreach _ _ Hv) as [c Hc].
  split; [by rewrite Hc|]. split; [|intros c'];
    intros ->; discriminate Hc.
Qed.

Lemma client_role_invariant_witness :
  client_populated (step "B" (JoinAsCompute s1_data) paired_state).1.
Proof.
  apply (proj1 (proj2 client_role_invariant)).
  intros s v Hv. rewrite paired_state_sessions in Hv.
  apply lookup_singleton_Some in Hv as [_ <-]. by eexists.
Defined.

(** * Further properties of the handlers *)

(** ** Disconnect *)

Lemma state_eq st1 st2 :
  active_sessions st1 = active_sessions st2 → rooms st1 = rooms st2 → st1 = st2.
Proof. destruct st1, st2. simpl. by intros -> ->. Qed.

Lemma remove_sessions_size keys (sessions : gmap string session) :
  NoDup keys →
  (∀ session_id, session_id ∈ keys → is_Some (sessions !! session_id)) →
  size (remove_sessions keys sessions) + length keys = size sessions.
Proof.
  revert sessions. induction keys as [|k keys IH]; intros sessions Hdup Hin.
  - simpl. lia.
  - apply NoDup_cons in Hdup as [Hk Hdup]. rewrite remove_sessions_cons. simpl.
    assert (is_Some (sessions !! k)) as Hsome by (apply Hin; by left).
    pose proof (map_size_delete_Some k sessions Hsome) as Hsize.
    destruct Hsome as [v Hv].
    assert (size sessions ≠ 0) as Hpos.
    { intros Hzero%map_size_empty_inv. by rewrite Hzero, lookup_empty in Hv. }
    assert (size (remove_sessions keys (delete k sessions)) + length keys
            = size (delete k sessions)) as Hrest.
    { apply IH; [done|]. intros k' Hk'.
      rewrite lookup_delete_ne by (by intros ->). apply Hin. by right. }
    lia.
Qed.

(** X1: the deletion loop of [handle_disconnect] cannot raise [KeyError]:
    run with Python's checked [del], it deletes every collected key and ends
    in the store that [handle_disconnect] returns. *)
Theorem disconnect_never_raises sid st :
  remove_sessions_checked (sessions_to_remove sid (active_sessions st))
                          (active_sessions st)
  = Some (active_sessions (handle_disconnect sid st).1).
Proof. apply handle_disconnect_no_KeyError. Qed.

(** X2: a second disconnect of the same connection changes nothing, and
    the disconnect of a connection that holds no role in any session
    changes nothing either. *)
Theorem disconnect_idempotent sid st :
  (handle_disconnect sid (handle_disconnect sid st).1).1
  = (handle_disconnect sid st).1
  ∧ ((∀ session_id session_data,
        active_sessions st !! session_id = Some session_data →
        ¬ occupies sid session_data) →
     (handle_disconnect sid st).1 = st).
Proof.
  split.
  - apply state_eq; [|done]. apply map_eq. intros s.
    rewrite !handle_disconnect_lookup.
    destruct (active_sessions st !! s) as [v|]; [|done].
    destruct (decide (occupies sid v)) as [Hocc|Hocc]; [done|].
    by rewrite decide_False.
  - intros Hfree. apply state_eq; [|done]. apply map_eq. intros s.
    rewrite handle_disconnect_lookup.
    destruct (active_sessions st !! s) as [v|] eqn:Hv; [|done].
    rewrite decide_False; [done|]. by eapply Hfree.
Qed.

Lemma disconnect_idempotent_witness :
  (handle_disconnect "C" paired_state).1 = paired_state.
Proof.
  apply (proj2 (disconnect_idempotent "C" paired_state)).
  intros s v Hv. rewrite paired_state_sessions in Hv.
  apply lookup_singleton_Some in Hv as [_ <-]. by intros [[= ?]|[= ?]].
Defined.

(** X3: the order in which two connections disconnect does not matter for
    the state that is left. *)
Theorem disconnect_commutes sid1 sid2 st :
  (handle_disconnect sid1 (handle_disconnect sid2 st).1).1
  = (handle_disconnect sid2 (handle_disconnect sid1 st).1).1.
Proof.
  apply state_eq; [|done]. apply map_eq. intros s.
  rewrite !handle_disconnect_lookup.
  destruct (active_sessions st !! s) as [v|]; [|done].
  destruct (decide (occupies sid1 v)), (decide (occupies sid2 v)); simpl;
    by rewrite ?decide_True, ?decide_False by done.
Qed.

(** X4: when a connection that holds a role of a session disconnects, the
    session is over for everybody: every relay event for it that passes
    validation, from whichever sender, is answered with the
    [Unauthorized] error of its kind. *)
Theorem disconnect_ends_session sid st session_id session_data k sender data :
  active_sessions st !! session_id = Some session_data →
  occupies sid session_data →
  well_formed k data session_id →
  handle_relay k sender data (handle_disconnect sid st).1
  = ((handle_disconnect sid st).1, [error sender (unauthorized_message k)]).
Proof.
  intros Hv Hocc Hwf. rewrite (handle_relay_well_formed _ _ _ _ _ Hwf).
  rewrite decide_False; [done|].
  unfold authorized, client_connection, compute_connection.
  rewrite handle_disconnect_lookup, Hv, decide_True by done.
  destruct k; simpl; [done | done | by intros [?|?]].
Qed.

Lemma disconnect_ends_session_witness :
  handle_relay RelayOffer "A" s1_offer (handle_disconnect "B" paired_state).1
  = ((handle_disconnect "B" paired_state).1,
     [error "A" (unauthorized_message RelayOffer)]).
Proof.
  apply (disconnect_ends_session "B" paired_state "s1"
           (Session (Some "A") (Some "B"))).
  - reflexivity.
  - right. reflexivity.
  - by repeat split.
Defined.

(** ** The health check *)

(** X5: the session count of the health check after an event.  An accepted
    [create_session] for an identifier that is not stored raises it by one;
    a disconnect lowers it by the number of sessions the connection held a
    role in; nothing else moves it. *)
Theorem health_check_count sid ev st :
  dict_get (health_check (step sid ev st).1) "active_sessions"
  = PInt (Z.of_nat
      match ev with
      | CreateSession data =>
          match checked_session_id data with
          | Some session_id =>
              match active_sessions st !! session_id with
              | None => S (size (active_sessions st))
              | Some _ => size (active_sessions st)
              end
          | None => size (active_sessions st)
          end
      | Disconnect =>
          size (active_sessions st)
          - length (sessions_to_remove sid (active_sessions st))
      | _ => size (active_sessions st)
      end).
Proof.
  change (dict_get (health_check (step sid ev st).1) "active_sessions")
    with (PInt (Z.of_nat (size (active_sessions (step sid ev st).1)))).
  do 2 f_equal. destruct ev as [| |data|data|data|data|data].
  - done.
  - change (active_sessions (step sid Disconnect st).1)
      with (remove_sessions (sessions_to_remove sid (active_sessions st))
              (active_sessions st)).
    pose proof (remove_sessions_size
                  (sessions_to_remove sid (active_sessions st))
                  (active_sessions st)
                  (sessions_to_remove_NoDup _ _)
                  (sessions_to_remove_present _ _)).
    lia.
  - simpl. destruct (checked_session_id data) as [s|] eqn:Hsid.
    + rewrite (create_session_store _ _ _ _ Hsid).
      destruct (active_sessions st !! s) as [v|] eqn:Hv.
      * apply map_size_insert_Some. eauto.
      * by apply map_size_insert_None.
    + by rewrite create_session_rejected.
  - simpl. destruct (checked_session_id data) as [s|] eqn:Hsid.
    + destruct (active_sessions st !! s) as [v|] eqn:Hv.
      * rewrite (join_as_compute_found _ _ _ _ _ Hsid Hv). simpl.
        apply map_size_insert_Some. eauto.
      * by rewrite (join_as_compute_not_found _ _ _ _ Hsid Hv).
    + by rewrite join_as_compute_rejected.
  - by rewrite (step_relay_state sid (Offer data) st).
  - by rewrite (step_relay_state sid (Answer data) st).
  - by rewrite (step_relay_state sid (IceCandidate data) st).
Qed.

(** ** Relay events, once more *)

Lemma step_relay k sid data st :
  step sid (relay k data) st = handle_relay k sid data st.
Proof. by destruct k. Qed.

(** A relay payload names one session and passes validation, or it passes
    for no session at all. *)
Lemma well_formed_cases k data :
  (∃ session_id, well_formed k data session_id)
  ∨ (∀ session_id, ¬ well_formed k data session_id).
Proof.
  destruct (data_session_id data) as [s|] eqn:Hs.
  - destruct (decide (well_formed k data s)) as [Hwf|Hwf]; [left; eauto|].
    right. intros s' Hwf'. apply Hwf.
    destruct Hwf' as (Hs' & ?). rewrite Hs in Hs'. by injection Hs' as <-.
  - right. intros s' (Hs' & _). congruence.
Qed.

Lemma authorized_occupies k sender st session_id :
  authorized k sender st session_id →
  ∃ session_data,
    active_sessions st !! session_id = Some session_data
    ∧ occupies sender session_data.
Proof.
  unfold authorized, client_connection, compute_connection, occupies.
  destruct (active_sessions st !! session_id) as [v|]; simpl.
  - intros Hauth. exists v. split; [done|].
    destruct k; [by left | by right | done].
  - destruct k; [done | done | by intros [?|?]].
Qed.

(** Where a broadcast comes from: a relay event that passed validation,
    sent by a connection the session accepts. *)
Lemma step_broadcast_inv sid ev st room name body :
  Broadcast room name body ∈ (step sid ev st).2 →
  ∃ k data,
    ev = relay k data
    ∧ well_formed k data room
    ∧ authorized k sid st room
    ∧ name = relay_event k
    ∧ body = relayed k room (get data (relay_field k)) sid.
Proof.
  assert (∀ k data,
            Broadcast room name body ∈ (handle_relay k sid data st).2 →
            well_formed k data room ∧ authorized k sid st room
            ∧ name = relay_event k
            ∧ body = relayed k room (get data (relay_field k)) sid) as Hrelay.
  { intros k data. destruct (well_formed_cases k data) as [[s Hwf]|Hbad].
    - rewrite (handle_relay_well_formed _ _ _ _ _ Hwf). simpl.
      case_decide as Hauth; intros Hin%list_elem_of_singleton; [|done].
      by injection Hin as -> -> ->.
    - rewrite (handle_relay_malformed _ _ _ _ Hbad). simpl.
      by intros Hin%list_elem_of_singleton. }
  destruct ev as [| |data|data|data|data|data].
  - by intros Hin%list_elem_of_singleton.
  - by intros Hin%elem_of_nil.
  - simpl. unfold handle_create_session.
    destruct (checked_session_id data); by intros Hin%list_elem_of_singleton.
  - simpl. unfold handle_join_as_compute.
    destruct (checked_session_id data) as [s|];
      [destruct (active_sessions st !! s)|];
      by intros Hin%list_elem_of_singleton.
  - intros Hin. exists RelayOffer, data. split; [done|].
    by apply (Hrelay RelayOffer).
  - intros Hin. exists RelayAnswer, data. split; [done|].
    by apply (Hrelay RelayAnswer).
  - intros Hin. exists RelayIceCandidate, data. split; [done|].
    by apply (Hrelay RelayIceCandidate).
Qed.

(** X6: validation comes first.  A relay handler answers with its
    "... required" error exactly when the payload fails validation, whatever
    the state and whoever the sender: an empty offer from the session's own
    client is rejected like one from a stranger. *)
Theorem relay_validation_first k sender data st :
  (handle_relay k sender data st).2 = [error sender (validation_message k)]
  ↔ ¬ ∃ session_id, well_formed k data session_id.
Proof.
  split.
  - intros Hout [s Hwf]. rewrite (handle_relay_well_formed _ _ _ _ _ Hwf) in Hout.
    simpl in Hout. case_decide; [done|]. by destruct k.
  - intros Hbad. rewrite handle_relay_malformed; [done|]. eauto.
Qed.

Lemma relay_validation_first_witness :
  (handle_relay RelayOffer "A" (Payload (Some "s1") [("offer", PStr "")])
     paired_state).2
  = [error "A" (validation_message RelayOffer)].
Proof.
  apply (proj2 (relay_validation_first RelayOffer "A"
                  (Payload (Some "s1") [("offer", PStr "")]) paired_state)).
  intros (s & _ & _ & Hval). vm_compute in Hval. discriminate Hval.
Defined.

(** X7: what a broadcast says about its origin is true.  Whatever the
    payload held, the [from] entry of a broadcast is the connection
    identifier of the sender, its [session_id] entry is the room it goes to,
    the sender holds a role in that session, and the dict has no entry
    besides these two and the relayed one: other top-level entries of the
    payload are not passed on. *)
Theorem broadcast_authentic sid ev st room name body :
  Broadcast room name body ∈ (step sid ev st).2 →
  dict_get body "from" = PStr sid
  ∧ dict_get body "session_id" = PStr room
  ∧ (∃ session_data,
       active_sessions st !! room = Some session_data
       ∧ occupies sid session_data)
  ∧ ∃ k, name = relay_event k
         ∧ ∀ key, key ≠ "session_id" → key ≠ relay_field k → key ≠ "from" →
                  dict_get body key = PNone.
Proof.
  intros (k & data & _ & _ & Hauth & -> & ->)%step_broadcast_inv.
  split; [by destruct k|]. split; [done|].
  split; [by eapply authorized_occupies|].
  exists k. split; [done|]. intros key H1 H2 H3.
  apply not_eq_sym, String.eqb_neq in H1, H2, H3.
  unfold relayed. cbn [dict_get]. by rewrite H1, H2, H3.
Qed.

Lemma broadcast_authentic_witness :
  dict_get (relayed RelayIceCandidate "s1" (get s1_candidate "candidate") "A")
           "from" = PStr "A".
Proof.
  apply (broadcast_authentic "A" (IceCandidate s1_candidate) paired_state "s1"
           "ice_candidate").
  vm_compute. left.
Defined.

(** X8: taking a role over revokes the rights of whoever held it.  After
    an accepted [create_session], an offer for the session is broadcast for
    the caller and rejected as unauthorized for every other connection;
    after an accepted [join_as_compute], the same goes for answers. *)
Theorem role_takeover sid data st session_id :
  data_session_id data = Some session_id → session_id ≠ "" →
  (∀ sender, authorized RelayOffer sender
               (handle_create_session sid data st).1 session_id
             ↔ sender = sid)
  ∧ (∀ sender offer_data,
       sender ≠ sid → well_formed RelayOffer offer_data session_id →
       (handle_offer sender offer_data (handle_create_session sid data st).1).2
       = [error sender "Unauthorized: not client for this session"])
  ∧ (is_Some (active_sessions st !! session_id) →
     (∀ sender, authorized RelayAnswer sender
                  (handle_join_as_compute sid data st).1 session_id
                ↔ sender = sid)
     ∧ ∀ sender answer_data,
         sender ≠ sid → well_formed RelayAnswer answer_data session_id →
         (handle_answer sender answer_data
            (handle_join_as_compute sid data st).1).2
         = [error sender "Unauthorized: not compute for this session"]).
Proof.
  intros Hs Hne.
  assert (checked_session_id data = Some session_id) as Hsid
    by (by apply checked_session_id_Some).
  assert (∀ sender, authorized RelayOffer sender
                      (handle_create_session sid data st).1 session_id
                    ↔ sender = sid) as Hoffer.
  { intros sender. unfold authorized, client_connection.
    rewrite (create_session_store _ _ _ _ Hsid), lookup_insert_eq. simpl.
    split; [by intros [= <-] | by intros ->]. }
  split; [exact Hoffer|]. split.
  { intros sender offer_data Hsender Hwf.
    change handle_offer with (handle_relay RelayOffer).
    rewrite (handle_relay_well_formed _ _ _ _ _ Hwf). simpl.
    rewrite decide_False; [done|]. by intros ?%Hoffer. }
  intros [v Hv].
  assert (∀ sender, authorized RelayAnswer sender
                      (handle_join_as_compute sid data st).1 session_id
                    ↔ sender = sid) as Hanswer.
  { intros sender. unfold authorized, compute_connection.
    rewrite (join_as_compute_found _ _ _ _ _ Hsid Hv). simpl.
    rewrite lookup_insert_eq. simpl.
    split; [by intros [= <-] | by intros ->]. }
  split; [exact Hanswer|].
  intros sender answer_data Hsender Hwf.
  change handle_answer with (handle_relay RelayAnswer).
  rewrite (handle_relay_well_formed _ _ _ _ _ Hwf). simpl.
  rewrite decide_False; [done|]. by intros ?%Hanswer.
Qed.

Lemma role_takeover_witness :
  (handle_offer "A" s1_offer (handle_create_session "C" s1_data paired_state).1).2
  = [error "A" "Unauthorized: not client for this session"].
Proof.
  apply (proj1 (proj2 (role_takeover "C" s1_data paired_state "s1"
                         eq_refl ltac:(done)))).
  - done.
  - by repeat split.
Defined.

(** ** Delivery *)

(** X9: in every reachable state, an accepted relay event is delivered to
    every connection paired under the session: the peer receives it, and so
    does the sender itself, as the broadcast goes to the whole room. *)
Theorem relay_reaches_pair st k sender data session_id session_data :
  reachable st →
  well_formed k data session_id →
  authorized k sender st session_id →
  active_sessions st !! session_id = Some session_data →
  ∃ a, (handle_relay k sender data st).2 = [a]
       ∧ is_broadcast a = true
       ∧ paired session_data ⊆ recipients st a
       ∧ sender ∈ recipients st a.
Proof.
  intros Hreach Hwf Hauth Hv.
  rewrite (handle_relay_well_formed _ _ _ _ _ Hwf). simpl.
  rewrite decide_True by done. eexists. split; [done|]. split; [done|].
  pose proof (reachable_occupants_joined _ Hreach) as Hjoined. simpl. split.
  - intros c Hc%elem_of_paired. by eapply Hjoined.
  - apply authorized_occupies in Hauth as (v & Hv' & Hocc).
    apply (Hjoined _ _ _ Hv' Hocc).
Qed.

Lemma relay_reaches_pair_witness :
  ∃ a, (handle_relay RelayOffer "A" s1_offer paired_state).2 = [a]
       ∧ is_broadcast a = true
       ∧ paired (Session (Some "A") (Some "B")) ⊆ recipients paired_state a
       ∧ "A" ∈ recipients paired_state a.
Proof.
  apply (relay_reaches_pair paired_state RelayOffer "A" s1_offer "s1").
  - apply reachable_paired_state.
  - by repeat split.
  - reflexivity.
  - reflexivity.
Defined.

(** X10: in every reachable state, every event but a disconnect is
    answered with exactly one outbound event, and the sender is among those
    it is delivered to; a disconnect sends nothing. *)
Theorem sender_always_answered st sid ev :
  reachable st →
  (step sid Disconnect st).2 = []
  ∧ (ev ≠ Disconnect →
     ∃ a, (step sid ev st).2 = [a] ∧ sid ∈ recipients (step sid ev st).1 a).
Proof.
  intros Hreach. split; [done|]. intros Hev.
  assert (∀ st' event body, sid ∈ recipients st' (Emit sid event body)) as Hemit
    by (intros; by apply elem_of_singleton).
  assert (∀ k data,
            ∃ a, (handle_relay k sid data st).2 = [a]
                 ∧ sid ∈ recipients (handle_relay k sid data st).1 a) as Hrelay.
  { intros k data. rewrite handle_relay_state.
    destruct (well_formed_cases k data) as [[s Hwf]|Hbad].
    - rewrite (handle_relay_well_formed _ _ _ _ _ Hwf). simpl.
      case_decide as Hauth; eexists; (split; [done|]); [|apply Hemit].
      apply authorized_occupies in Hauth as (v & Hv & Hocc).
      by eapply (reachable_occupants_joined _ Hreach).
    - rewrite (handle_relay_malformed _ _ _ _ Hbad). simpl.
      eexists. split; [done | apply Hemit]. }
  destruct ev as [| |data|data|data|data|data]; try done.
  - eexists. split; [done | apply Hemit].
  - simpl. unfold handle_create_session.
    destruct (checked_session_id data); eexists; (split; [done | apply Hemit]).
  - simpl. unfold handle_join_as_compute.
    destruct (checked_session_id data) as [s|];
      [destruct (active_sessions st !! s)|];
      eexists; (split; [done | apply Hemit]).
  - apply (Hrelay RelayOffer).
  - apply (Hrelay RelayAnswer).
  - apply (Hrelay RelayIceCandidate).
Qed.

Lemma sender_always_answered_witness :
  ∃ a, (step "B" (Answer s1_answer) paired_state).2 = [a]
       ∧ "B" ∈ recipients (step "B" (Answer s1_answer) paired_state).1 a.
Proof.
  apply (sender_always_answered paired_state "B" (Answer s1_answer));
    [apply reachable_paired_state | done].
Defined.

(** ** Traces *)

Lemma run_cons sid ev rest st :
  (run ((sid, ev) :: rest) st).1 = (run rest (step sid ev st).1).1.
Proof.
  simpl. destruct (step sid ev st) as [st1 out1]. simpl.
  by destruct (run rest st1).
Qed.



Lemma disconnect_or_not ev : {ev = Disconnect} + {ev ≠ Disconnect}.
Proof. destruct ev; (by left) || (by right). Qed.

(** Roles and rooms are held by open connections only. *)
Lemma run_live trace st conns :
  transport_ok trace conns = true →
  (∀ session_id session_data c,
     active_sessions st !! session_id = Some session_data →
     occupies c session_data → c ∈ conns) →
  (∀ room, members st room ⊆ conns) →
  (∀ session_id session_data c,
     active_sessions (run trace st).1 !! session_id = Some session_data →
     occupies c session_data → c ∈ live trace conns)
  ∧ (∀ room, members (run trace st).1 room ⊆ live trace conns).
Proof.
  revert st conns. induction trace as [|[sid ev] rest IH];
    intros st conns Hok Hroles Hrooms; [done|].
  rewrite run_cons.
  assert (∀ conns',
            transport_ok rest conns' = true →
            (ev = Disconnect → conns ∖ {[sid]} ⊆ conns') →
            (ev ≠ Disconnect → sid ∈ conns' ∧ conns ⊆ conns') →
            (∀ session_id session_data c,
               active_sessions (run rest (step sid ev st).1).1 !! session_id
               = Some session_data →
               occupies c session_data → c ∈ live rest conns')
            ∧ (∀ room, members (run rest (step sid ev st).1).1 room
                       ⊆ live rest conns')) as Hnext.
  { intros conns' Hok' Hdis Hother. apply IH; [done| |].
    - intros s v c Hv Hocc.
      apply step_lookup_Some in Hv
        as [[Hv Hev]|[(data & -> & _ & ->)|(data & old & -> & _ & Hold & ->)]].
      + assert (c ∈ conns) as Hc by (by eapply Hroles).
        destruct (disconnect_or_not ev) as [->|Hne].
        * apply (Hdis eq_refl), elem_of_difference. split; [done|].
          intros ->%elem_of_singleton. by apply Hev.
        * by apply (Hother Hne).
      + destruct (Hother ltac:(done)) as [Hsid Hsub].
        destruct Hocc as [[= <-]|Hc]; simpl in *; [done|].
        unfold compute_connection in Hc.
        destruct (active_sessions st !! s) as [v0|] eqn:Hv0; [|done].
        apply Hsub. eapply Hroles; [done|]. by right.
      + destruct (Hother ltac:(done)) as [Hsid Hsub].
        destruct Hocc as [Hc|[= <-]]; simpl in *; [|done].
        apply Hsub. eapply Hroles; [done|]. by left.
    - intros room c. rewrite step_members. intros Hc.
      destruct (disconnect_or_not ev) as [->|Hne].
      + apply (Hdis eq_refl).
        apply elem_of_difference in Hc as [Hc ?].
        apply elem_of_difference. split; [by eapply Hrooms | done].
      + destruct (Hother Hne) as [Hsid Hsub].
        assert (c ∈ {[sid]} ∪ members st room → c ∈ conns') as Hadd.
        { intros [->%elem_of_singleton|?]%elem_of_union; [done|].
          apply Hsub. by eapply Hrooms. }
        destruct ev; try done; try (apply Hsub; by eapply Hrooms);
          case_decide; auto; apply Hadd, elem_of_union; by right. }
  destruct ev as [| |data|data|data|data|data]; simpl in Hok |- *;
    try (apply andb_true_iff in Hok as [Hsid%bool_decide_eq_true Hok]);
    apply Hnext; try done; try (by intros _; split).
  intros _. split; [apply elem_of_union; left; by apply elem_of_singleton|].
  apply union_subseteq_r.
Qed.

(** X12: no zombie sessions.  On a trace in which every event comes from
    an open connection, every connection that holds a role of a stored
    session is still open at the end, and so is every member of every room. *)
Theorem occupants_are_live trace :
  transport_ok trace ∅ = true →
  (∀ session_id session_data c,
     active_sessions (run trace initial).1 !! session_id = Some session_data →
     occupies c session_data → c ∈ live trace ∅)
  ∧ (∀ room, members (run trace initial).1 room ⊆ live trace ∅).
Proof.
  intros Hok. apply run_live; [done| |].
  - intros s v c Hv. simpl in Hv. by rewrite lookup_empty in Hv.
  - intros room. unfold members. simpl. by rewrite lookup_empty.
Qed.

Lemma occupants_are_live_witness :
  members (run session_trace initial).1 "s1" ⊆ live session_trace ∅.
Proof.
  apply (proj2 (occupants_are_live session_trace eq_refl) "s1").
Defined.
